(** * scripts/fix-ts-errors.py: the batch fixer, embedded and verified

    The script reads each file of a fixed list, deletes the matches of two
    regular expressions, looks for two substrings it only warns about, and
    writes the file back when the text changed.

    Layout of this development:
    - [Text]: Python [str] values as lists of code points, the [in] operator;
    - [Regex]: the fragment of [re] the two patterns use, with the greedy
      backtracking matcher and [re.sub] for an empty replacement;
    - [Script]: the functions of the script, over a small state-and-exception
      monad for the file system and the console;
    - [Stdout]: the same functions on a standard output that may not have
      the characters of the script's marks;
    - lemmas and the theorems about the script. *)

From stdpp Require Import gmap strings list fin_maps.
From Stdlib Require Import NArith.

Local Open Scope N_scope.

(* ===================================================================== *)
(** ** Text *)
(* ===================================================================== *)

Module Text.

(** A Python [str] is a sequence of Unicode code points. *)
Definition char : Type := N.
Definition text : Type := list char.

Definition LF : char := 10.
Definition SP : char := 32.

(** ASCII literals of the script, as code points. *)
Definition str (s : string) : text :=
  Ascii.N_of_ascii <$> String.list_ascii_of_string s.

(** [Py_UNICODE_ISSPACE], which is what [\s] tests in a [str] pattern:
    the ASCII separators TAB, LF, VT, FF, CR, FS, GS, RS, US and space, and
    the other code points with the White_Space property or bidirectional
    type WS, B or S. *)
Definition is_space (c : char) : bool :=
  ((9 <=? c) && (c <=? 13)) || ((28 <=? c) && (c <=? 32))
  || (c =? 133) || (c =? 160) || (c =? 5760)
  || ((8192 <=? c) && (c <=? 8202))
  || (c =? 8232) || (c =? 8233) || (c =? 8239) || (c =? 8287)
  || (c =? 12288).

(** [t.startswith(needle)] *)
Fixpoint starts_with (needle t : text) : bool :=
  match needle, t with
  | [], _ => true
  | _ :: _, [] => false
  | c :: needle', x :: t' => (x =? c) && starts_with needle' t'
  end.

(** [needle in t]: some suffix of [t] starts with [needle]. *)
Fixpoint str_in (needle t : text) : bool :=
  starts_with needle t ||
  match t with
  | [] => false
  | _ :: t' => str_in needle t'
  end.

End Text.

(* ===================================================================== *)
(** ** Regex *)
(* ===================================================================== *)

Module Regex.
Import Text.

(** The atoms the patterns are built from: a literal character (also the
    escaped [\.] and [\n]) and the class [\s]. *)
Inductive atom : Type :=
| Lit (c : char)
| Space.

(** An atom alone, or under a greedy [*] or [+]. *)
Inductive item : Type :=
| One (a : atom)
| Star (a : atom)
| Plus (a : atom).

(** A pattern is a concatenation of items. The capturing group [(\s+)] of
    the script is the item [Plus Space]: the replacement is the empty string
    and the pattern has no back-reference, so the group only records a span
    nobody reads. *)
Definition regex : Type := list item.

Definition atom_matches (a : atom) (x : char) : bool :=
  match a with
  | Lit c => x =? c
  | Space => is_space x
  end.

(** A run of literal characters. *)
Definition lits (s : text) : regex := (λ c, One (Lit c)) <$> s.
Definition lit (s : string) : regex := lits (str s).

(** Greedy repetition with backtracking: take one more character when the
    atom allows it and the rest of the match then succeeds; otherwise give
    the character back and run the continuation [k] here. The result is the
    number of characters the match consumed from this point. *)
Fixpoint star (a : atom) (k : text → option nat) (t : text) : option nat :=
  match t with
  | x :: t' =>
      if atom_matches a x then
        match star a k t' with
        | Some n => Some (S n)
        | None => k t
        end
      else k t
  | [] => k t
  end.

(** [re.match(p, t)]: the length of the match of [p] at the start of [t]
    that the backtracking engine finds first, if there is one. *)
Fixpoint match_here (p : regex) (t : text) : option nat :=
  match p with
  | [] => Some 0%nat
  | One a :: p' =>
      match t with
      | x :: t' => if atom_matches a x then S <$> match_here p' t' else None
      | [] => None
      end
  | Star a :: p' => star a (match_here p') t
  | Plus a :: p' =>
      match t with
      | x :: t' =>
          if atom_matches a x then S <$> star a (match_here p') t' else None
      | [] => None
      end
  end.

(** [re.search(p, t) is not None] *)
Fixpoint search (p : regex) (t : text) : bool :=
  match match_here p t with
  | Some _ => true
  | None => match t with [] => false | _ :: t' => search p t' end
  end.

(** The scan of [re.sub(p, '', t)]. [skip] counts the characters of the
    current match still to be dropped. With [skip = 0] the engine tries a
    match at this position: a match of [n+1] characters is replaced by the
    empty string and the scan resumes behind it; without a match (or with
    an empty one, which puts the empty string in) the character is copied
    and the scan moves one position on. *)
Fixpoint sub_scan (p : regex) (skip : nat) (t : text) : text :=
  match t with
  | [] => []
  | x :: t' =>
      match skip with
      | S k => sub_scan p k t'
      | O =>
          match match_here p t with
          | Some (S n) => sub_scan p n t'
          | _ => x :: sub_scan p 0 t'
          end
      end
  end.

(** [re.sub(p, '', t)] *)
Definition re_sub (p : regex) (t : text) : text := sub_scan p 0 t.

End Regex.

(* ===================================================================== *)
(** ** The script *)
(* ===================================================================== *)

Module Script.
Import Text Regex.

(** [r'(\s+)schoolId:\s*context\.schoolId,\s*//\s*CRITICAL:\s*Filter by school\s*\n'] *)
Definition pattern1 : regex :=
  [Plus Space] ++ lit "schoolId:" ++
  [Star Space] ++ lit "context.schoolId," ++
  [Star Space] ++ lit "//" ++
  [Star Space] ++ lit "CRITICAL:" ++
  [Star Space] ++ lit "Filter by school" ++
  [Star Space; One (Lit LF)].

(** [r'(\s+)schoolId,\s*//\s*CRITICAL:\s*Filter by school\s*\n'] *)
Definition pattern2 : regex :=
  [Plus Space] ++ lit "schoolId," ++
  [Star Space] ++ lit "//" ++
  [Star Space] ++ lit "CRITICAL:" ++
  [Star Space] ++ lit "Filter by school" ++
  [Star Space; One (Lit LF)].

(** Remove schoolId from User where clauses. *)
Definition fix_user_where_clause (content : text) : text :=
  let content := re_sub pattern1 content in
  let content := re_sub pattern2 content in
  content.

(** *** The world the script runs in *)

(** What a path of the file system holds. A path bound to nothing does not
    exist. The content of a regular file is its text as [f.read()] returns
    it (decoded, newlines translated), which is also what [f.write] stores.
    [Unreadable msg] stands for a path that exists but that [open] or
    [read] rejects with an exception other than [FileNotFoundError] (a
    directory, a file without read permission, bytes that are not UTF-8);
    [msg] is the text of that exception. A regular file that is not
    writable makes [open(filepath, 'w')] raise and keeps its content. *)
Inductive node : Type :=
| Regular (content : text) (writable : bool)
| Unreadable (msg : string).

(** One constructor for each [print] of the script. *)
Inductive event : Type :=
| Starting                        (* "Starting TypeScript error fixes..." *)
| Fixing (filepath : string)      (* "Fixing {filepath}..." *)
| WarnTeacher                     (* "Found user.teacher without include - needs manual review" *)
| WarnUserSchools                 (* "Found user.userSchools without include - needs manual review" *)
| Fixed (filepath : string)       (* "Fixed {filepath}" *)
| NoChanges                       (* "- No changes needed" *)
| FileNotFound (filepath : string) (* "File not found: {filepath}" *)
| Error (msg : string)            (* "Error: {e}" *)
| FixedCount (fixed_count : nat)  (* "Fixed {fixed_count} files." *)
| RunTsc.                         (* "Run 'npx tsc --noEmit' to verify." *)

Record world : Type := World {
  fs : gmap string node;
  console : list event
}.

(** The exceptions the script distinguishes. *)
Inductive exn : Type :=
| FileNotFoundError
| OtherException (msg : string).

Inductive result (A : Type) : Type :=
| Ok (a : A)
| Raise (e : exn).
Global Arguments Ok {A} a.
Global Arguments Raise {A} e.

(** Python code: it changes the world and returns or raises. What it did
    before raising stays done. *)
Definition Py (A : Type) : Type := world → result A * world.

Global Instance Py_ret : MRet Py := λ A a w, (Ok a, w).
Global Instance Py_bind : MBind Py := λ A B f m w,
  match m w with
  | (Ok a, w') => f a w'
  | (Raise e, w') => (Raise e, w')
  end.
Global Instance Py_throw : MThrow exn Py := λ A e w, (Raise e, w).

(** [try: body  except ... : handler] *)
Definition try_except {A} (body : Py A) (handler : exn → Py A) : Py A :=
  λ w,
    match body w with
    | (Ok a, w') => (Ok a, w')
    | (Raise e, w') => handler e w'
    end.

Definition skip : Py unit := mret ().

Definition print (e : event) : Py unit :=
  λ w, (Ok (), World (fs w) (console w ++ [e])).

(** [with open(filepath, 'r', encoding='utf-8') as f: content = f.read()] *)
Definition read_text (filepath : string) : Py text :=
  λ w,
    match fs w !! filepath with
    | None => (Raise FileNotFoundError, w)
    | Some (Unreadable msg) => (Raise (OtherException msg), w)
    | Some (Regular content _) => (Ok content, w)
    end.

(** [str(e)] for the [PermissionError] that [open(filepath, 'w')] raises. *)
Definition denied (filepath : string) : string :=
  "[Errno 13] Permission denied: '" +:+ filepath +:+ "'".

(** [with open(filepath, 'w', encoding='utf-8') as f: f.write(content)] *)
Definition write_text (filepath : string) (content : text) : Py unit :=
  λ w,
    match fs w !! filepath with
    | None | Some (Regular _ true) =>
        (Ok (), World (<[filepath := Regular content true]> (fs w)) (console w))
    | Some (Regular _ false) =>
        (Raise (OtherException (denied filepath)), w)
    | Some (Unreadable msg) => (Raise (OtherException msg), w)
    end.

(** *** The functions of the script *)

Definition files_to_fix : list string := [
  "src/app/api/calendar/events/route.ts";
  "src/app/api/calendar/export/route.ts";
  "src/app/api/calendar/preferences/route.ts";
  "src/app/api/payments/create/route.ts";
  "src/app/api/payments/verify/route.ts";
  "src/app/api/reports/batch-download/route.ts";
  "src/app/api/teacher/achievements/[id]/route.ts";
  "src/app/api/teacher/achievements/route.ts";
  "src/app/api/teacher/documents/route.ts";
  "src/app/api/teacher/events/[id]/rsvp/route.ts";
  "src/app/api/teacher/events/route.ts";
  "src/app/api/students/[id]/route.ts"
]%string.

(** Fix user.teacher references - needs to use include. *)
Definition fix_teacher_references (content : text) : Py text :=
  (if str_in (str "user.teacher") content
      && negb (str_in (str "include:") content)
   then print WarnTeacher
   else skip) ;;
  mret content.

(** Fix user.userSchools references. *)
Definition fix_user_schools_references (content : text) : Py text :=
  (if str_in (str "user.userSchools[0]") content then
     if negb (str_in (str "userSchools:") content)
     then print WarnUserSchools
     else skip
   else skip) ;;
  mret content.

(** Fix a single file. *)
Definition fix_file (filepath : string) : Py bool :=
  print (Fixing filepath) ;;
  try_except
    (content ← read_text filepath;
     let original := content in
     let content := fix_user_where_clause content in
     content ← fix_teacher_references content;
     content ← fix_user_schools_references content;
     if bool_decide (content ≠ original) then
       write_text filepath content ;;
       print (Fixed filepath) ;;
       mret true
     else
       print NoChanges ;;
       mret false)
    (λ e,
       match e with
       | FileNotFoundError => print (FileNotFound filepath) ;; mret false
       | OtherException msg => print (Error msg) ;; mret false
       end).

(** [for filepath in paths: if fix_file(filepath): fixed_count += 1] *)
Fixpoint for_each_file (paths : list string) (fixed_count : nat) : Py nat :=
  match paths with
  | [] => mret fixed_count
  | filepath :: paths' =>
      fixed ← fix_file filepath;
      for_each_file paths'
        (if fixed : bool then fixed_count + 1 else fixed_count)%nat
  end.

Definition main : Py unit :=
  print Starting ;;
  fixed_count ← for_each_file files_to_fix 0%nat;
  print (FixedCount fixed_count) ;;
  print RunTsc.


End Script.

(* ===================================================================== *)
(** ** The script on a standard output of either kind *)
(* ===================================================================== *)

(** [Script] takes a console that accepts every line. Here the functions
    that print are given again for a standard output that may lack the
    characters of the script's marks; on [Utf8] they are the functions of
    [Script]. *)
Module Stdout.
Import Text Regex Script.










End Stdout.

Import Text Regex Script Stdout.

(* ===================================================================== *)
(** ** Vocabulary of the statements *)
(* ===================================================================== *)

(** [needle] occurs in [t]: the meaning of Python's [needle in t]. *)
Definition occurs (needle t : text) : Prop :=
  ∃ before after, t = before ++ needle ++ after.

(** The two lines the script is after, as the script's comments give them. *)
Definition line1 : text :=
  Eval vm_compute in
    str "schoolId: context.schoolId, // CRITICAL: Filter by school".
Definition line2 : text :=
  Eval vm_compute in str "schoolId, // CRITICAL: Filter by school".

(** The word both patterns look for behind the whitespace. *)
Definition keyword : text := Eval vm_compute in str "schoolId".

(** [t] is empty or ends in a character that is not whitespace. *)
Definition ends_nonspace (t : text) : bool :=
  match last t with
  | Some x => negb (is_space x)
  | None => true
  end.

(** [t] begins with a whitespace character. *)
Definition starts_space (t : text) : bool :=
  match t with
  | x :: _ => is_space x
  | [] => false
  end.

(** The whitespace [t] begins with, if any, holds no newline: [t] does not
    start with the end of a line or with blank lines. *)
Fixpoint no_leading_newline (t : text) : bool :=
  match t with
  | x :: t' => if is_space x then negb (x =? LF) && no_leading_newline t' else true
  | [] => true
  end.

(** The atom [a] cannot take the first character of [t]. *)
Definition stops (a : atom) (t : text) : bool :=
  match t with
  | x :: _ => negb (atom_matches a x)
  | [] => true
  end.








(** The world after some more lines on the console. *)
Definition log (es : list event) (w : world) : world :=
  World (fs w) (console w ++ es).

Definition teacher_warning (content : text) : list event :=
  if str_in (str "user.teacher") content
     && negb (str_in (str "include:") content)
  then [WarnTeacher] else [].

Definition user_schools_warning (content : text) : list event :=
  if str_in (str "user.userSchools[0]") content
     && negb (str_in (str "userSchools:") content)
  then [WarnUserSchools] else [].

Definition warnings (content : text) : list event :=
  teacher_warning content ++ user_schools_warning content.

(** What one call of [fix_file] does, case by case. *)
Definition fix_file_outcome (filepath : string) (w : world)
  : result bool * world :=
  match fs w !! filepath with
  | None => (Ok false, log [Fixing filepath; FileNotFound filepath] w)
  | Some (Unreadable msg) => (Ok false, log [Fixing filepath; Error msg] w)
  | Some (Regular original writable) =>
      let content := fix_user_where_clause original in
      if bool_decide (content ≠ original) then
        if writable then
          (Ok true,
           World (<[filepath := Regular content true]> (fs w))
                 (console w ++ [Fixing filepath] ++ warnings content
                    ++ [Fixed filepath]))
        else
          (Ok false,
           log ([Fixing filepath] ++ warnings content
                  ++ [Error (denied filepath)]) w)
      else
        (Ok false,
         log ([Fixing filepath] ++ warnings content ++ [NoChanges]) w)
  end.

(** The calls of [fix_file] the loop of [main] makes on [paths], one after
    the other from the world [w], with what each returned. *)
Inductive calls : list string → world → list bool → world → Prop :=
| calls_nil w : calls [] w [] w
| calls_cons filepath paths w fixed w' results w'' :
    fix_file filepath w = (Ok fixed, w') →
    calls paths w' results w'' →
    calls (filepath :: paths) w (fixed :: results) w''.

(** How many calls returned [True]. *)
Definition fixed_files (results : list bool) : nat :=
  length (filter (λ fixed, fixed = true) results).

(** The three passes as [fix_file] chains them on the content it read. *)
Definition three_passes (content : text) : Py text :=
  let content := fix_user_where_clause content in
  content ← fix_teacher_references content;
  fix_user_schools_references content.

(** The file a line [Fixing ...] of the console names. *)
Definition started (e : event) : option string :=
  match e with
  | Fixing filepath => Some filepath
  | _ => None
  end.

(** The two lines with any whitespace where the patterns have [\s*]: [w2]
    to [w5] stand between the words, [w6] between the marker and the newline
    that ends the match. *)
Definition spaced_line1 (w2 w3 w4 w5 w6 : text) : text :=
  str "schoolId:" ++ w2 ++ str "context.schoolId," ++ w3 ++ str "//" ++ w4
  ++ str "CRITICAL:" ++ w5 ++ str "Filter by school" ++ w6.

Definition spaced_line2 (w3 w4 w5 w6 : text) : text :=
  str "schoolId," ++ w3 ++ str "//" ++ w4
  ++ str "CRITICAL:" ++ w5 ++ str "Filter by school" ++ w6.

(** The characters every match of [p] has at least: one for each item that
    is not under [*]. *)
Fixpoint min_length (p : regex) : nat :=
  match p with
  | [] => 0
  | Star _ :: p' => min_length p'
  | _ :: p' => S (min_length p')
  end.

(** What a run of the script makes of a file of its list: a regular file
    that can be written holds the transformed text, anything else stays. *)
Definition fix_node (n : node) : node :=
  match n with
  | Regular content true => Regular (fix_user_where_clause content) true
  | _ => n
  end.

(** The file a line [Fixed ...] of the console names. *)
Definition reported_fixed (e : event) : option string :=
  match e with
  | Fixed filepath => Some filepath
  | _ => None
  end.

Global Instance node_eq_dec : EqDecision node.
Proof. solve_decision. Defined.

(* ===================================================================== *)
(** ** Substring search *)
(* ===================================================================== *)

Section Substrings.

Lemma starts_with_spec needle t :
  starts_with needle t = true ↔ ∃ after, t = needle ++ after.
Proof.
  revert t. induction needle as [|c needle IH]; intros t; simpl.
  - split; [eauto|done].
  - destruct t as [|x t].
    + split; [done|]. intros [after Heq]. discriminate.
    + rewrite andb_true_iff, N.eqb_eq, IH. split.
      * intros [-> [after ->]]. eauto.
      * intros [after Heq]. injection Heq as -> ->. eauto.
Qed.

Lemma str_in_spec needle t : str_in needle t = true ↔ occurs needle t.
Proof.
  unfold occurs. induction t as [|x t IH]; simpl.
  - rewrite orb_false_r, starts_with_spec. split.
    + intros [after ->]. by exists [], after.
    + intros (before & after & Heq). destruct before; [eauto|discriminate].
  - rewrite orb_true_iff, starts_with_spec, IH. split.
    + intros [[after ->]|(before & after & ->)].
      * by exists [], after.
      * by exists (x :: before), after.
    + intros (before & after & Heq). destruct before as [|y before].
      * left. eauto.
      * right. injection Heq as -> ->. eauto.
Qed.

Lemma str_in_false_spec needle t :
  str_in needle t = false ↔ ¬ occurs needle t.
Proof. rewrite <- str_in_spec. by destruct (str_in needle t). Qed.

Lemma occurs_app_l needle t u : occurs needle t → occurs needle (t ++ u).
Proof.
  intros (before & after & ->). exists before, (after ++ u).
  by rewrite <- !app_assoc.
Qed.

Lemma occurs_app_r needle t u : occurs needle u → occurs needle (t ++ u).
Proof.
  intros (before & after & ->). exists (t ++ before), after.
  by rewrite <- !app_assoc.
Qed.

Lemma occurs_cons needle x t : occurs needle t → occurs needle (x :: t).
Proof. apply (occurs_app_r needle [x] t). Qed.

End Substrings.

(* ===================================================================== *)
(** ** Running the script *)
(* ===================================================================== *)

Section Runs.

Lemma log_nil w : log [] w = w.
Proof. destruct w. unfold log. simpl. by rewrite app_nil_r. Qed.

Lemma log_log es1 es2 w : log es2 (log es1 w) = log (es1 ++ es2) w.
Proof. unfold log. simpl. by rewrite app_assoc. Qed.

Lemma fix_teacher_references_run content w :
  fix_teacher_references content w
  = (Ok content, log (teacher_warning content) w).
Proof.
  unfold fix_teacher_references, teacher_warning, mbind, Py_bind.
  destruct (_ && _); simpl; [done|]. by rewrite log_nil.
Qed.

Lemma fix_user_schools_references_run content w :
  fix_user_schools_references content w
  = (Ok content, log (user_schools_warning content) w).
Proof.
  unfold fix_user_schools_references, user_schools_warning, mbind, Py_bind.
  destruct (str_in (str "user.userSchools[0]") content); simpl;
    [destruct (str_in (str "userSchools:") content); simpl|];
    by rewrite ?log_nil.
Qed.

Lemma fix_file_run filepath w :
  fix_file filepath w = fix_file_outcome filepath w.
Proof.
  unfold fix_file, fix_file_outcome.
  unfold mbind at 1. unfold Py_bind at 1. simpl.
  unfold try_except, mbind, Py_bind, read_text. simpl.
  destruct (fs w !! filepath) as [[original writable|msg]|] eqn:Hfs; simpl.
  - rewrite fix_teacher_references_run, fix_user_schools_references_run.
    unfold write_text, warnings.
    case_bool_decide; simpl; [rewrite Hfs; destruct writable; simpl|];
      unfold log; simpl; by rewrite <- ?app_assoc.
  - unfold log. simpl. by rewrite <- app_assoc.
  - unfold log. simpl. by rewrite <- app_assoc.
Qed.

(** [fix_file] returns: no exception leaves it. *)
Lemma fix_file_returns filepath w :
  ∃ fixed w', fix_file filepath w = (Ok fixed, w').
Proof.
  rewrite fix_file_run. unfold fix_file_outcome.
  destruct (fs w !! filepath) as [[original writable|msg]|]; simpl; eauto.
  case_bool_decide; [destruct writable|]; eauto.
Qed.

End Runs.

(* ===================================================================== *)
(** ** The matcher and the scan *)
(* ===================================================================== *)

Section Scan.
Implicit Types (p : regex) (t : text) (a : atom).

Lemma sub_scan_sublist p skip t : sub_scan p skip t `sublist_of` t.
Proof.
  revert skip. induction t as [|x t IH]; intros skip; simpl; [done|].
  destruct skip as [|k]; [|by apply sublist_cons].
  destruct (match_here p (x :: t)) as [[|n]|];
    auto using sublist_skip, sublist_cons.
Qed.

Lemma search_cons_false p x t :
  search p (x :: t) = false
  ↔ match_here p (x :: t) = None ∧ search p t = false.
Proof.
  change (search p (x :: t)) with
    (match match_here p (x :: t) with
     | Some _ => true
     | None => search p t
     end).
  destruct (match_here p (x :: t)); [split; [done|by intros [? _]]|].
  split; [done|by intros [_ ?]].
Qed.

(** Without a match anywhere the scan copies the text. *)
Lemma re_sub_no_match p t : search p t = false → re_sub p t = t.
Proof.
  unfold re_sub. induction t as [|x t IH]; [done|].
  intros [Hx Ht]%search_cons_false.
  cbn [sub_scan]. rewrite Hx. f_equal. auto.
Qed.

Lemma sub_scan_skip p m t : sub_scan p (length m) (m ++ t) = sub_scan p 0 t.
Proof. induction m as [|x m IH]; [done|]. apply IH. Qed.

Lemma re_sub_length p t : (length (re_sub p t) ≤ length t)%nat.
Proof. apply sublist_length, sub_scan_sublist. Qed.

(** The scan, read as "drop the match and resume behind it". *)
Lemma sub_scan_drop p n t : sub_scan p n t = sub_scan p 0 (drop n t).
Proof.
  revert n. induction t as [|x t IH]; intros [|n]; try done.
  cbn [sub_scan drop]. apply IH.
Qed.

Lemma re_sub_cons p x t :
  re_sub p (x :: t)
  = match match_here p (x :: t) with
    | Some (S n) => re_sub p (drop n t)
    | _ => x :: re_sub p t
    end.
Proof.
  unfold re_sub. cbn [sub_scan].
  destruct (match_here p (x :: t)) as [[|n]|]; try done.
  apply sub_scan_drop.
Qed.

(** A pattern that starts with [+] has no empty match, so the scan makes the
    text shorter as soon as there is a match. *)
Lemma re_sub_shorter a p t :
  search (Plus a :: p) t = true →
  (length (re_sub (Plus a :: p) t) < length t)%nat.
Proof.
  unfold re_sub. induction t as [|x t IH]; [done|].
  change (search (Plus a :: p) (x :: t)) with
    (match match_here (Plus a :: p) (x :: t) with
     | Some _ => true
     | None => search (Plus a :: p) t
     end).
  cbn [sub_scan].
  destruct (match_here (Plus a :: p) (x :: t)) as [[|n]|] eqn:Hm.
  - cbn [match_here] in Hm. destruct (atom_matches a x); [|done].
    by destruct (star a (match_here p) t).
  - intros _. pose proof (sublist_length _ _ (sub_scan_sublist (Plus a :: p) n t)).
    simpl. lia.
  - intros Ht. specialize (IH Ht). simpl. lia.
Qed.

(** A match at the head of the text is dropped whole. *)
Lemma re_sub_match p m t :
  m ≠ [] → match_here p (m ++ t) = Some (length m) →
  re_sub p (m ++ t) = re_sub p t.
Proof.
  unfold re_sub. destruct m as [|x m]; [done|]. intros _ Hm.
  cbn [app sub_scan]. cbn [app] in Hm. rewrite Hm. cbn [length].
  apply sub_scan_skip.
Qed.

(** A text no match starts in is copied. *)
Lemma re_sub_prefix p pre rest :
  (∀ u s, pre = u ++ s → s ≠ [] → match_here p (s ++ rest) = None) →
  re_sub p (pre ++ rest) = pre ++ re_sub p rest.
Proof.
  unfold re_sub. induction pre as [|x pre IH]; intros Hpre; [done|].
  pose proof (Hpre [] (x :: pre) eq_refl ltac:(done)) as Hx.
  cbn [app sub_scan] in *. rewrite Hx. f_equal. apply IH.
  intros u s -> Hs. by apply (Hpre (x :: u) s).
Qed.

Lemma search_prefix p pre rest :
  (∀ u s, pre = u ++ s → s ≠ [] → match_here p (s ++ rest) = None) →
  search p (pre ++ rest) = search p rest.
Proof.
  induction pre as [|x pre IH]; intros Hpre; [done|].
  pose proof (Hpre [] (x :: pre) eq_refl ltac:(done)) as Hx.
  cbn [app search] in *. rewrite Hx. apply IH.
  intros u s -> Hs. by apply (Hpre (x :: u) s).
Qed.

(** *** Greedy repetition *)

Lemma star_cons a k x t :
  star a k (x :: t)
  = if atom_matches a x then
      match star a k t with
      | Some n => Some (S n)
      | None => k (x :: t)
      end
    else k (x :: t).
Proof. done. Qed.

Lemma star_stops a k t : stops a t = true → star a k t = k t.
Proof.
  destruct t as [|x t]; [done|]. simpl.
  by intros ->%negb_true_iff.
Qed.

(** The repetition takes a whole run when the match goes on behind it. *)
Lemma star_run a k w t n :
  forallb (atom_matches a) w = true → stops a t = true →
  k t = Some n → star a k (w ++ t) = Some (length w + n)%nat.
Proof.
  intros Hw Ht Hk. induction w as [|x w IH]; simpl.
  - by rewrite star_stops.
  - simpl in Hw. apply andb_true_iff in Hw as [-> Hw]. by rewrite IH.
Qed.

(** The repetition fails over a run when the continuation fails behind it
    and at each character of it. *)
Lemma star_fails a k w t :
  forallb (atom_matches a) w = true → stops a t = true →
  k t = None → (∀ x u, atom_matches a x = true → k (x :: u) = None) →
  star a k (w ++ t) = None.
Proof.
  intros Hw Ht Hk Hback. induction w as [|x w IH]; simpl.
  - by rewrite star_stops.
  - simpl in Hw. apply andb_true_iff in Hw as [Hx Hw].
    rewrite Hx, IH; auto.
Qed.

Lemma star_inv a k t n :
  star a k t = Some n →
  ∃ w t' m, t = w ++ t' ∧ forallb (atom_matches a) w = true
            ∧ k t' = Some m ∧ n = (length w + m)%nat.
Proof.
  revert n. induction t as [|x t IH]; intros n; simpl.
  - intros Hk. by exists [], [], n.
  - destruct (atom_matches a x) eqn:Hx.
    + destruct (star a k t) as [n'|].
      * intros [= <-]. destruct (IH n' eq_refl) as (w & t' & m & -> & ? & ? & ->).
        exists (x :: w), t', m. simpl. rewrite Hx. auto.
      * intros Hk. by exists [], (x :: t), n.
    + intros Hk. by exists [], (x :: t), n.
Qed.

(** *** Literals *)

Lemma lits_cons c s : lits (c :: s) = One (Lit c) :: lits s.
Proof. done. Qed.

Lemma match_lits s p t :
  match_here (lits s ++ p) (s ++ t)
  = (λ n, length s + n)%nat <$> match_here p t.
Proof.
  induction s as [|c s IH].
  - simpl. by destruct (match_here p t).
  - rewrite lits_cons. cbn [app match_here atom_matches].
    rewrite N.eqb_refl, IH. by destruct (match_here p t).
Qed.

Lemma match_lits_inv s p t n :
  match_here (lits s ++ p) t = Some n → ∃ t', t = s ++ t'.
Proof.
  revert t n. induction s as [|c s IH]; intros t n; [simpl; eauto|].
  rewrite lits_cons. cbn [app match_here atom_matches].
  destruct t as [|x t]; [done|].
  destruct (x =? c) eqn:Hx; [|done]. apply N.eqb_eq in Hx as ->.
  destruct (match_here _ t) as [m|] eqn:Hm; [|done].
  destruct (IH _ _ Hm) as [t' ->]. eauto.
Qed.

(** *** Patterns that start with [\s+] and a word *)

(** Where such a pattern matches, the text is whitespace and the word. *)
Lemma match_word kw p t n :
  match_here (Plus Space :: lits kw ++ p) t = Some n →
  ∃ w t', w ≠ [] ∧ forallb is_space w = true ∧ t = w ++ kw ++ t'.
Proof.
  destruct t as [|x t]; simpl; [done|].
  destruct (is_space x) eqn:Hx; [|done].
  destruct (star _ _ t) as [m|] eqn:Hstar; [|done]. intros _.
  apply star_inv in Hstar as (w & t1 & m' & -> & Hw & Hk & _).
  apply match_lits_inv in Hk as [t' ->].
  exists (x :: w), t'. simpl. by rewrite Hx.
Qed.

(** A text without the word has no match. *)
Lemma search_no_word kw p t :
  ¬ occurs kw t → search (Plus Space :: lits kw ++ p) t = false.
Proof.
  induction t as [|x t IH]; intros Hkw; [done|].
  apply search_cons_false. split.
  - destruct (match_here _ (x :: t)) as [n|] eqn:Hm; [|done].
    apply match_word in Hm as (w & t' & _ & _ & Heq).
    destruct Hkw. rewrite Heq. by exists w, t'.
  - apply IH. intros Ht. by apply Hkw, occurs_cons.
Qed.

Lemma word_at_seam kw s rest t' :
  forallb (λ c, negb (is_space c)) kw = true → starts_space rest = true →
  s ++ rest = kw ++ t' → ∃ s', s = kw ++ s'.
Proof.
  intros Hkw Hrest. revert s.
  induction kw as [|c kw IH]; intros s Heq; [eauto|].
  simpl in Hkw. apply andb_true_iff in Hkw as [Hc Hkw].
  destruct s as [|x s]; simpl in Heq.
  - subst rest. simpl in Hrest. by rewrite Hrest in Hc.
  - injection Heq as -> Heq. destruct (IH Hkw _ Heq) as [s' ->]. eauto.
Qed.

Lemma ends_nonspace_cons x s :
  s ≠ [] → ends_nonspace (x :: s) = ends_nonspace s.
Proof. destruct s; [done|]. intros _. unfold ends_nonspace. by rewrite last_cons_cons. Qed.

Lemma word_before_seam kw s rest w t' :
  forallb (λ c, negb (is_space c)) kw = true → starts_space rest = true →
  s ≠ [] → ends_nonspace s = true → forallb is_space w = true →
  s ++ rest = w ++ kw ++ t' → occurs kw s.
Proof.
  intros Hkw Hrest. revert w.
  induction s as [|x s IH]; intros w Hs Hend Hw Heq; [done|].
  destruct w as [|y w].
  - destruct (word_at_seam kw (x :: s) rest t' Hkw Hrest Heq) as [s' ->].
    by exists [], s'.
  - simpl in Hw, Heq. apply andb_true_iff in Hw as [Hy Hw].
    injection Heq as -> Heq.
    destruct s as [|x' s].
    + unfold ends_nonspace in Hend. simpl in Hend. by rewrite Hy in Hend.
    + apply occurs_cons, (IH w); [done| |done..].
      by rewrite <- (ends_nonspace_cons y).
Qed.

(** No match starts in a text that lacks the word, ends in something else
    than whitespace and is followed by whitespace. *)
Lemma no_match_before kw p pre rest :
  forallb (λ c, negb (is_space c)) kw = true → starts_space rest = true →
  ¬ occurs kw pre → ends_nonspace pre = true →
  ∀ u s, pre = u ++ s → s ≠ [] →
         match_here (Plus Space :: lits kw ++ p) (s ++ rest) = None.
Proof.
  intros Hkw Hrest Hpre Hend u s -> Hs.
  destruct (match_here _ (s ++ rest)) as [n|] eqn:Hm; [|done].
  apply match_word in Hm as (w & t' & _ & Hw & Heq).
  destruct Hpre. apply occurs_app_r.
  apply (word_before_seam kw s rest w t'); auto.
  unfold ends_nonspace in *. rewrite last_app in Hend.
  destruct (last s) eqn:Hlast; [done|]. by apply last_None in Hlast.
Qed.

End Scan.

(* ===================================================================== *)
(** ** The two patterns of the script *)
(* ===================================================================== *)

Section Patterns.

Lemma pattern1_shape :
  pattern1 = Plus Space :: lits keyword ++ drop 9 pattern1.
Proof. reflexivity. Qed.

Lemma pattern2_shape :
  pattern2 = Plus Space :: lits keyword ++ drop 9 pattern2.
Proof. reflexivity. Qed.

Lemma keyword_nonspace : forallb (λ c, negb (is_space c)) keyword = true.
Proof. reflexivity. Qed.

Lemma LF_only_newline x : (x =? LF) = true → is_space x = true.
Proof. by intros ->%N.eqb_eq. Qed.

(** [\s*\n] finds no newline in a text that has none in front. *)
Lemma star_newline_fails post :
  no_leading_newline post = true →
  star Space (match_here [One (Lit LF)]) post = None.
Proof.
  induction post as [|x post IH]; [done|].
  cbn [no_leading_newline star atom_matches].
  destruct (is_space x) eqn:Hx.
  - intros [Hlf Hpost]%andb_true_iff. rewrite (IH Hpost).
    cbn [match_here atom_matches].
    apply negb_true_iff in Hlf. by rewrite Hlf.
  - intros _. cbn [match_here atom_matches].
    destruct (x =? LF) eqn:Hlf; [|done].
    apply LF_only_newline in Hlf. congruence.
Qed.

(** [\s*\n] at the end of a line takes the newline and nothing more when
    no blank line follows. *)
Lemma match_line_end post :
  no_leading_newline post = true →
  match_here [Star Space; One (Lit LF)] (LF :: post) = Some 1%nat.
Proof.
  intros Hpost.
  change (match_here [Star Space; One (Lit LF)] (LF :: post)) with
    (star Space (match_here [One (Lit LF)]) (LF :: post)).
  by rewrite star_cons, (star_newline_fails post Hpost).
Qed.

(** [\s*] and a word, on whitespace and that word. *)
Lemma match_star_lits s p w t n :
  forallb is_space w = true → stops Space (s ++ t) = true →
  match_here p t = Some n →
  match_here (Star Space :: lits s ++ p) (w ++ s ++ t)
  = Some (length w + (length s + n))%nat.
Proof.
  intros Hw Hs Hp. cbn [match_here]. apply star_run; [done..|].
  by rewrite match_lits, Hp.
Qed.

Lemma body1_matches post :
  no_leading_newline post = true →
  match_here (tail pattern1) (line1 ++ LF :: post)
  = Some (S (length line1)).
Proof.
  intros Hpost.
  change (tail pattern1) with
    (lits (str "schoolId:") ++
     Star Space :: lits (str "context.schoolId,") ++
     Star Space :: lits (str "//") ++
     Star Space :: lits (str "CRITICAL:") ++
     Star Space :: lits (str "Filter by school") ++
     [Star Space; One (Lit LF)]).
  change (line1 ++ LF :: post) with
    (str "schoolId:" ++
     [SP] ++ str "context.schoolId," ++
     [SP] ++ str "//" ++
     [SP] ++ str "CRITICAL:" ++
     [SP] ++ str "Filter by school" ++ LF :: post).
  pose proof (match_line_end post Hpost) as H5.
  pose proof (match_star_lits (str "Filter by school") _ [SP] _ _
                eq_refl eq_refl H5) as H4.
  pose proof (match_star_lits (str "CRITICAL:") _ [SP] _ _
                eq_refl eq_refl H4) as H3.
  pose proof (match_star_lits (str "//") _ [SP] _ _
                eq_refl eq_refl H3) as H2.
  pose proof (match_star_lits (str "context.schoolId,") _ [SP] _ _
                eq_refl eq_refl H2) as H1.
  by rewrite match_lits, H1.
Qed.

Lemma body2_matches post :
  no_leading_newline post = true →
  match_here (tail pattern2) (line2 ++ LF :: post)
  = Some (S (length line2)).
Proof.
  intros Hpost.
  change (tail pattern2) with
    (lits (str "schoolId,") ++
     Star Space :: lits (str "//") ++
     Star Space :: lits (str "CRITICAL:") ++
     Star Space :: lits (str "Filter by school") ++
     [Star Space; One (Lit LF)]).
  change (line2 ++ LF :: post) with
    (str "schoolId," ++
     [SP] ++ str "//" ++
     [SP] ++ str "CRITICAL:" ++
     [SP] ++ str "Filter by school" ++ LF :: post).
  pose proof (match_line_end post Hpost) as H4.
  pose proof (match_star_lits (str "Filter by school") _ [SP] _ _
                eq_refl eq_refl H4) as H3.
  pose proof (match_star_lits (str "CRITICAL:") _ [SP] _ _
                eq_refl eq_refl H3) as H2.
  pose proof (match_star_lits (str "//") _ [SP] _ _
                eq_refl eq_refl H2) as H1.
  by rewrite match_lits, H1.
Qed.

(** [\s+] and the rest of a pattern, on whitespace and a text the rest
    matches. *)
Lemma match_plus_space p ws t n :
  ws ≠ [] → forallb is_space ws = true → stops Space t = true →
  match_here p t = Some n →
  match_here (Plus Space :: p) (ws ++ t) = Some (length ws + n)%nat.
Proof.
  destruct ws as [|x ws]; [done|]. intros _ Hws Ht Hp.
  simpl in Hws. apply andb_true_iff in Hws as [Hx Hws].
  cbn [app match_here atom_matches]. rewrite Hx.
  by rewrite (star_run Space _ ws t n).
Qed.

(** The whole of a [line1] line with its whitespace in front is one match
    of [pattern1]. *)
Lemma line1_matches ws post :
  ws ≠ [] → forallb is_space ws = true →
  no_leading_newline post = true →
  match_here pattern1 ((ws ++ line1 ++ [LF]) ++ post)
  = Some (length (ws ++ line1 ++ [LF])).
Proof.
  intros Hne Hws Hpost.
  replace ((ws ++ line1 ++ [LF]) ++ post) with (ws ++ line1 ++ LF :: post)
    by by rewrite <- !app_assoc.
  change pattern1 with (Plus Space :: tail pattern1).
  rewrite (match_plus_space _ ws _ (S (length line1))); [|done..| |].
  - f_equal. rewrite !length_app. simpl. lia.
  - reflexivity.
  - by apply body1_matches.
Qed.

Lemma line2_matches ws post :
  ws ≠ [] → forallb is_space ws = true →
  no_leading_newline post = true →
  match_here pattern2 ((ws ++ line2 ++ [LF]) ++ post)
  = Some (length (ws ++ line2 ++ [LF])).
Proof.
  intros Hne Hws Hpost.
  replace ((ws ++ line2 ++ [LF]) ++ post) with (ws ++ line2 ++ LF :: post)
    by by rewrite <- !app_assoc.
  change pattern2 with (Plus Space :: tail pattern2).
  rewrite (match_plus_space _ ws _ (S (length line2))); [|done..| |].
  - f_equal. rewrite !length_app. simpl. lia.
  - reflexivity.
  - by apply body2_matches.
Qed.

End Patterns.

(* ===================================================================== *)
(** ** Deleting the lines *)
(* ===================================================================== *)

Section Deleting.

Lemma not_occurs_app needle t u :
  ¬ occurs needle (t ++ u) → ¬ occurs needle t ∧ ¬ occurs needle u.
Proof. split; intros ?; eauto using occurs_app_l, occurs_app_r. Qed.

Lemma starts_space_app ws t :
  ws ≠ [] → forallb is_space ws = true → starts_space (ws ++ t) = true.
Proof.
  destruct ws as [|x ws]; [done|]. simpl.
  by intros _ [? _]%andb_true_iff.
Qed.

(** No match of either pattern leaves a text without the word. *)
Lemma search_no_keyword t :
  ¬ occurs keyword t →
  search pattern1 t = false ∧ search pattern2 t = false.
Proof.
  intros Ht. rewrite pattern1_shape, pattern2_shape.
  split; by apply search_no_word.
Qed.

Lemma fix_no_keyword t :
  ¬ occurs keyword t → fix_user_where_clause t = t.
Proof.
  intros [H1 H2]%search_no_keyword. unfold fix_user_where_clause.
  by rewrite (re_sub_no_match _ _ H1), (re_sub_no_match _ _ H2).
Qed.

(** The texts the substitution pass leaves as they are: those without a
    match of either pattern. *)
Lemma fix_unchanged_iff t :
  fix_user_where_clause t = t
  ↔ search pattern1 t = false ∧ search pattern2 t = false.
Proof.
  unfold fix_user_where_clause. split.
  - intros Hfix.
    pose proof (re_sub_length pattern2 (re_sub pattern1 t)) as Hlen2.
    destruct (search pattern1 t) eqn:H1.
    + apply (re_sub_shorter Space (tail pattern1)) in H1.
      change (Plus Space :: tail pattern1) with pattern1 in H1.
      rewrite Hfix in Hlen2. lia.
    + split; [done|]. rewrite (re_sub_no_match _ _ H1) in Hfix.
      destruct (search pattern2 t) eqn:H2; [|done].
      apply (re_sub_shorter Space (tail pattern2)) in H2.
      change (Plus Space :: tail pattern2) with pattern2 in H2.
      rewrite Hfix in H2. lia.
  - intros [H1 H2].
    by rewrite (re_sub_no_match _ _ H1), (re_sub_no_match _ _ H2).
Qed.

(** [pattern1] takes a [line1] line out of its surroundings. *)
Lemma pattern1_deletes_line1 pre ws post :
  ws ≠ [] → forallb is_space ws = true → ends_nonspace pre = true →
  no_leading_newline post = true → ¬ occurs keyword pre →
  re_sub pattern1 (pre ++ ws ++ line1 ++ LF :: post)
  = pre ++ re_sub pattern1 post.
Proof.
  intros Hne Hws Hpre Hpost Hkw.
  rewrite re_sub_prefix.
  - f_equal.
    replace (ws ++ line1 ++ LF :: post) with ((ws ++ line1 ++ [LF]) ++ post)
      by by rewrite <- !app_assoc.
    apply re_sub_match; [by destruct ws|by apply line1_matches].
  - rewrite pattern1_shape.
    apply no_match_before;
      auto using keyword_nonspace, starts_space_app.
Qed.

Lemma pattern2_deletes_line2 pre ws post :
  ws ≠ [] → forallb is_space ws = true → ends_nonspace pre = true →
  no_leading_newline post = true → ¬ occurs keyword pre →
  re_sub pattern2 (pre ++ ws ++ line2 ++ LF :: post)
  = pre ++ re_sub pattern2 post.
Proof.
  intros Hne Hws Hpre Hpost Hkw.
  rewrite re_sub_prefix.
  - f_equal.
    replace (ws ++ line2 ++ LF :: post) with ((ws ++ line2 ++ [LF]) ++ post)
      by by rewrite <- !app_assoc.
    apply re_sub_match; [by destruct ws|by apply line2_matches].
  - rewrite pattern2_shape.
    apply no_match_before;
      auto using keyword_nonspace, starts_space_app.
Qed.

(** The shorthand line is nothing [pattern1] matches: behind the word it
    has a comma where the pattern wants a colon. *)
Lemma tail1_rejects_space x u :
  is_space x = true → match_here (tail pattern1) (x :: u) = None.
Proof.
  intros Hx. change (tail pattern1) with (One (Lit 115) :: drop 2 pattern1).
  cbn [match_here atom_matches].
  destruct (x =? 115) eqn:Hs; [|done].
  apply N.eqb_eq in Hs as ->. done.
Qed.

Lemma pattern1_skips_line2 ws post :
  forallb is_space ws = true → ¬ occurs keyword post →
  search pattern1 (ws ++ line2 ++ LF :: post) = false.
Proof.
  intros Hws Hpost. induction ws as [|x ws IH].
  - unfold line2. cbn [app].
    repeat (apply search_cons_false; split; [reflexivity|]).
    apply search_cons_false. split; [|by apply search_no_keyword].
    destruct (match_here pattern1 (LF :: post)) as [n|] eqn:Hm; [|done].
    rewrite pattern1_shape in Hm.
    apply match_word in Hm as (w & t' & Hne & Hw & Heq).
    destruct w as [|y w]; [done|]. injection Heq as _ ->.
    destruct Hpost. by exists w, t'.
  - simpl in Hws. apply andb_true_iff in Hws as [Hx Hws].
    apply search_cons_false. split; [|by apply IH].
    change pattern1 with (Plus Space :: tail pattern1).
    cbn [match_here atom_matches]. rewrite Hx.
    rewrite star_fails; [done..|reflexivity|reflexivity|].
    intros y u Hy. by apply tail1_rejects_space.
Qed.

End Deleting.

(* ===================================================================== *)
(** ** Theorems: the substitution pass *)
(* ===================================================================== *)


(** C10. The output of [fix_user_where_clause] is the input with characters
    deleted and nothing put in; it is never longer than the input. *)
Theorem fix_user_where_clause_deletes_only (content : text) :
  fix_user_where_clause content `sublist_of` content
  ∧ (length (fix_user_where_clause content) ≤ length content)%nat.
Proof.
  assert (fix_user_where_clause content `sublist_of` content) as Hsub.
  { unfold fix_user_where_clause, re_sub.
    etrans; apply sub_scan_sublist. }
  split; [done|]. by apply sublist_length.
Qed.

(* ===================================================================== *)
(** ** The batch *)
(* ===================================================================== *)

Section Batch.

Lemma three_passes_run content w :
  three_passes content w
  = (Ok (fix_user_where_clause content),
     log (warnings (fix_user_where_clause content)) w).
Proof.
  unfold three_passes, mbind, Py_bind.
  rewrite fix_teacher_references_run, fix_user_schools_references_run.
  by rewrite log_log.
Qed.

Lemma started_warnings content : omap started (warnings content) = [].
Proof.
  unfold warnings, teacher_warning, user_schools_warning.
  by repeat destruct (_ && _).
Qed.

Lemma started_call filepath content e :
  started e = None →
  omap started (Fixing filepath :: warnings content ++ [e]) = [filepath].
Proof.
  intros He. change (Fixing filepath :: warnings content ++ [e])
    with ([Fixing filepath] ++ warnings content ++ [e]).
  rewrite !omap_app, started_warnings. simpl. by rewrite He.
Qed.

(** One call announces its file once on the console. *)
Lemma fix_file_started filepath w fixed w' :
  fix_file filepath w = (Ok fixed, w') →
  omap started (console w') = omap started (console w) ++ [filepath].
Proof.
  rewrite fix_file_run. unfold fix_file_outcome.
  destruct (fs w !! filepath) as [[original writable|msg]|];
    [case_bool_decide; [destruct writable|]|..];
    intros [= <- <-]; cbn [log console];
    rewrite omap_app; f_equal; by rewrite ?started_call.
Qed.

(** One call touches no other file, and returns [True] exactly when it
    changed its own. *)
Lemma fix_file_footprint filepath w fixed w' :
  fix_file filepath w = (Ok fixed, w') →
  (∀ other, other ≠ filepath → fs w' !! other = fs w !! other)
  ∧ (fixed = true ↔ fs w' !! filepath ≠ fs w !! filepath).
Proof.
  rewrite fix_file_run. unfold fix_file_outcome.
  destruct (fs w !! filepath) as [[original writable|msg]|] eqn:Hfs;
    [case_bool_decide as Hne; [destruct writable|]|..];
    intros [= <- <-]; simpl; rewrite ?Hfs;
    try (split; [done|split; [done|by intros []]]).
  split.
  - intros other Hother. by rewrite lookup_insert_ne.
  - rewrite lookup_insert_eq. split; [|done].
    intros _ [= Heq]. by apply Hne.
Qed.

Lemma filter_agree {A} (P Q : A → Prop)
    `{!∀ x, Decision (P x), !∀ x, Decision (Q x)} (l : list A) :
  (∀ x, x ∈ l → P x ↔ Q x) → filter P l = filter Q l.
Proof.
  induction l as [|x l IH]; intros HPQ; [done|].
  rewrite !filter_cons.
  rewrite IH by (intros y Hy; apply HPQ; by right).
  assert (P x ↔ Q x) as Hx by (apply HPQ; by left).
  destruct (decide (P x)), (decide (Q x)); tauto.
Qed.

(** The loop returns: it calls [fix_file] on every path and adds one to
    the count for each call that returned [True]. *)
Lemma for_each_file_run paths fixed_count w :
  ∃ results w',
    calls paths w results w'
    ∧ for_each_file paths fixed_count w
      = (Ok (fixed_count + fixed_files results)%nat, w').
Proof.
  revert fixed_count w.
  induction paths as [|filepath paths IH]; intros fixed_count w.
  - exists [], w. split; [constructor|].
    unfold fixed_files. simpl. by rewrite Nat.add_0_r.
  - destruct (fix_file_returns filepath w) as (fixed & w1 & Hcall).
    destruct (IH (if fixed then fixed_count + 1 else fixed_count)%nat w1)
      as (results & w' & Hcalls & Hloop).
    exists (fixed :: results), w'. split; [by econstructor|].
    cbn [for_each_file]. unfold mbind, Py_bind. rewrite Hcall, Hloop.
    do 2 f_equal. unfold fixed_files. rewrite filter_cons.
    destruct fixed; case_decide; try done; simpl; lia.
Qed.

Lemma calls_started paths w results w' :
  calls paths w results w' →
  omap started (console w') = omap started (console w) ++ paths.
Proof.
  induction 1 as [w|filepath paths w fixed w1 results w' Hcall _ IH].
  - by rewrite app_nil_r.
  - rewrite IH, (fix_file_started _ _ _ _ Hcall).
    by rewrite <- app_assoc.
Qed.

(** Over distinct paths, the calls that returned [True] are as many as the
    files whose content changed. *)
Lemma calls_rewritten paths w results w' :
  NoDup paths → calls paths w results w' →
  fixed_files results
  = length (filter (λ filepath, fs w' !! filepath ≠ fs w !! filepath) paths)
  ∧ ∀ other, other ∉ paths → fs w' !! other = fs w !! other.
Proof.
  intros Hnodup Hcalls.
  induction Hcalls as [w|filepath paths w fixed w1 results w' Hcall _ IH].
  - done.
  - apply NoDup_cons in Hnodup as [Hfresh Hnodup].
    destruct (IH Hnodup) as [IHcount IHother].
    destruct (fix_file_footprint _ _ _ _ Hcall) as [Hothers Hown].
    split.
    + unfold fixed_files in *. rewrite !filter_cons.
      rewrite (filter_agree
                 (λ filepath0, fs w' !! filepath0 ≠ fs w !! filepath0)
                 (λ filepath0, fs w' !! filepath0 ≠ fs w1 !! filepath0)).
      * rewrite (IHother filepath Hfresh).
        destruct (decide (fixed = true)),
          (decide (fs w1 !! filepath ≠ fs w !! filepath));
          simpl; rewrite ?IHcount; tauto.
      * intros x Hx. rewrite Hothers; [done|]. by intros ->.
    + intros other [Hne Hother]%not_elem_of_cons.
      by rewrite IHother, Hothers.
Qed.

Lemma files_to_fix_NoDup : NoDup files_to_fix.
Proof. apply (bool_decide_unpack _). by vm_compute. Qed.

End Batch.

Section Main.

Lemma snoc_neq {A} (l : list A) x : l ++ [x] ≠ l.
Proof.
  intros Heq. apply (f_equal length) in Heq.
  rewrite length_app in Heq. simpl in Heq. lia.
Qed.

Lemma bind_run {A B} (m : Py A) (f : A → Py B) w a w' :
  m w = (Ok a, w') → (m ≫= f) w = f a w'.
Proof. unfold mbind, Py_bind. by intros ->. Qed.

Lemma print_run e w : print e w = (Ok (), log [e] w).
Proof. done. Qed.

(** [main] returns, after the calls on the whole list. *)
Lemma main_run w :
  ∃ results w1,
    calls files_to_fix (log [Starting] w) results w1
    ∧ main w = (Ok (), log [FixedCount (fixed_files results); RunTsc] w1).
Proof.
  destruct (for_each_file_run files_to_fix 0 (log [Starting] w))
    as (results & w1 & Hcalls & Hloop).
  exists results, w1. split; [done|]. unfold main.
  rewrite (bind_run _ _ _ _ _ (print_run Starting w)).
  rewrite (bind_run _ _ _ _ _ Hloop).
  rewrite (bind_run _ _ _ _ _ (print_run _ w1)).
  by rewrite print_run, log_log.
Qed.

End Main.

(* ===================================================================== *)
(** ** Theorems: the detection passes *)
(* ===================================================================== *)

(** C6. The two detection passes return the content they were given, for
    every content: each leaves the files alone and prints at most its one
    warning. *)
Theorem detection_passes_keep_content (content : text) (w : world) :
  (∃ w', fix_teacher_references content w = (Ok content, w')
         ∧ fs w' = fs w
         ∧ (console w' = console w
            ∨ console w' = console w ++ [WarnTeacher]))
  ∧ (∃ w', fix_user_schools_references content w = (Ok content, w')
           ∧ fs w' = fs w
           ∧ (console w' = console w
              ∨ console w' = console w ++ [WarnUserSchools])).
Proof.
  rewrite fix_teacher_references_run, fix_user_schools_references_run.
  split; eexists; (split; [done|split; [done|]]); simpl.
  - unfold teacher_warning. destruct (_ && _); [by right|left].
    by rewrite app_nil_r.
  - unfold user_schools_warning. destruct (_ && _); [by right|left].
    by rewrite app_nil_r.
Qed.

(** C7. [fix_teacher_references] prints its warning exactly when
    [user.teacher] occurs in the content and [include:] does not; otherwise
    it prints nothing. *)
Theorem teacher_warning_iff (content : text) (w : world) :
  let w' := (fix_teacher_references content w).2 in
  (console w' = console w ++ [WarnTeacher]
   ↔ occurs (str "user.teacher") content ∧ ¬ occurs (str "include:") content)
  ∧ (console w' = console w
     ↔ ¬ (occurs (str "user.teacher") content
          ∧ ¬ occurs (str "include:") content)).
Proof.
  rewrite fix_teacher_references_run. cbn [snd log console].
  assert (str_in (str "user.teacher") content
          && negb (str_in (str "include:") content) = true
          ↔ occurs (str "user.teacher") content
            ∧ ¬ occurs (str "include:") content) as Hcond.
  { by rewrite andb_true_iff, negb_true_iff, str_in_spec, str_in_false_spec. }
  unfold teacher_warning. destruct (_ && _).
  - apply proj1 in Hcond. specialize (Hcond eq_refl).
    split; split; try done. by intros ?%snoc_neq.
  - apply proj2 in Hcond. rewrite app_nil_r.
    split; split; try done; try (by intros ?%eq_sym%snoc_neq).
    + by intros ?%Hcond.
    + by intros _ ?%Hcond.
Qed.

(** C9. On every content the three passes chained as [fix_file] chains them
    return what [fix_user_where_clause] alone returns, and leave the files
    alone. *)
Theorem three_passes_content (content : text) (w : world) :
  (three_passes content w).1 = Ok (fix_user_where_clause content)
  ∧ fs (three_passes content w).2 = fs w.
Proof. by rewrite three_passes_run. Qed.

(* ===================================================================== *)
(** ** Theorems: one file *)
(* ===================================================================== *)

(** C4, as the script behaves. A file that was read and can be written is
    written back exactly when the transformed content differs from the
    original, and [fix_file] returns [True] exactly then; a file that cannot
    be written stays as it is and [fix_file] returns [False]. When neither
    pattern has a match in the text, the output is the input, nothing is
    written, "No changes needed" is printed and [fix_file] returns [False]. *)
Theorem fix_file_writes_iff_changed
    (filepath : string) (w : world) (original : text) (writable : bool) :
  fs w !! filepath = Some (Regular original writable) →
  let content := fix_user_where_clause original in
  ∃ fixed w',
    fix_file filepath w = (Ok fixed, w')
    ∧ (writable = true →
       (fixed = true ↔ content ≠ original)
       ∧ fs w' = (if fixed then <[filepath := Regular content true]> (fs w)
                  else fs w)
       ∧ (fs w' ≠ fs w ↔ content ≠ original))
    ∧ (writable = false → fixed = false ∧ fs w' = fs w)
    ∧ (search pattern1 original = false →
       search pattern2 original = false →
       content = original ∧ fixed = false ∧ fs w' = fs w
       ∧ last (console w') = Some NoChanges).
Proof.
  intros Hfs content. rewrite fix_file_run. unfold fix_file_outcome.
  rewrite Hfs. fold content.
  assert (search pattern1 original = false →
          search pattern2 original = false → content = original) as Hsame.
  { intros H1 H2. unfold content, fix_user_where_clause.
    by rewrite (re_sub_no_match _ _ H1), (re_sub_no_match _ _ H2). }
  case_bool_decide as Hne; [destruct writable|];
    eexists _, _; (split; [done|]); cbn [fs console log].
  - split; [|split; [done|]].
    + intros _. split; [by split|]. split; [done|]. split; [done|].
      intros _ Heq. apply (f_equal (.!! filepath)) in Heq.
      rewrite lookup_insert_eq, Hfs in Heq. by injection Heq.
    + intros H1 H2. destruct Hne. by apply Hsame.
  - split; [done|]. split; [done|].
    intros H1 H2. destruct Hne. by apply Hsame.
  - split; [|split; [done|]].
    + intros _. split; [by split|]. split; [done|]. by split.
    + intros _ _. repeat split; [done|].
      by rewrite !app_assoc, last_snoc.
Qed.

Lemma fix_file_writes_iff_changed_witness :
  let filepath := "src/app/api/payments/create/route.ts"%string in
  let original := str "  id," ++ (LF :: str "  ") ++ line1 ++ [LF] in
  let w := World {[ filepath := Regular original true ]} [] in
  ∃ w', fix_file filepath w = (Ok true, w')
        ∧ fs w' = {[ filepath := Regular (str "  id,") true ]}.
Proof.
  intros filepath original w.
  destruct (fix_file_writes_iff_changed filepath w original true)
    as (fixed & w' & Hrun & Hwritable & _ & _).
  - vm_compute. reflexivity.
  - destruct (Hwritable eq_refl) as (Hfixed & Hfs & _).
    assert (fixed = true) as ->.
    { apply Hfixed. vm_compute. discriminate. }
    exists w'. split; [done|]. rewrite Hfs. vm_compute. reflexivity.
Defined.

(** C4 as the specification states it fails on a read-only file:
    the transformed content differs, yet nothing is written and [fix_file]
    returns [False]. *)
Lemma fix_file_readonly_not_written :
  let filepath := "src/app/api/payments/create/route.ts"%string in
  let original := str "  id," ++ (LF :: str "  ") ++ line1 ++ [LF] in
  let w := World {[ filepath := Regular original false ]} [] in
  read_text filepath w = (Ok original, w)
  ∧ fix_user_where_clause original ≠ original
  ∧ (fix_file filepath w).1 = Ok false
  ∧ fs (fix_file filepath w).2 = fs w.
Proof.
  repeat split; vm_compute; (reflexivity || discriminate).
Qed.


(* ===================================================================== *)
(** ** Theorems: the whole list *)
(* ===================================================================== *)

(** C8. The list has twelve paths. [main] calls [fix_file] on each of them
    in the order of the list, as the "Fixing ..." lines of the console show,
    and the count of its last but one line is the number of calls that
    returned [True], which is the number of files of the list whose content
    is not what it was before the run. *)
Theorem main_counts_rewritten_files (w : world) :
  length files_to_fix = 12%nat
  ∧ ∃ results w1,
      calls files_to_fix (log [Starting] w) results w1
      ∧ omap started (console w1) = omap started (console w) ++ files_to_fix
      ∧ main w = (Ok (), log [FixedCount (fixed_files results); RunTsc] w1)
      ∧ fixed_files results
        = length (filter (λ filepath, fs w1 !! filepath ≠ fs w !! filepath)
                    files_to_fix).
Proof.
  split; [done|].
  destruct (main_run w) as (results & w1 & Hcalls & Hmain).
  exists results, w1. split; [done|]. split; [|split; [done|]].
  - apply calls_started in Hcalls. cbn [log console] in Hcalls.
    rewrite Hcalls, omap_app. simpl. by rewrite app_nil_r.
  - by destruct (calls_rewritten _ _ _ _ files_to_fix_NoDup Hcalls).
Qed.


(* ===================================================================== *)
(** ** More on the matcher: what a match needs *)
(* ===================================================================== *)

Section Needs.
Implicit Types (p : regex) (t : text) (a : atom).

Lemma fmap_S_inv (o : option nat) n :
  S <$> o = Some n → ∃ m, o = Some m ∧ n = S m.
Proof. destruct o as [m|]; [|done]. intros [= <-]. eauto. Qed.

(** A match holds every literal character of the pattern. *)
Lemma match_needs_literal p t n c :
  match_here p t = Some n → One (Lit c) ∈ p → c ∈ t.
Proof.
  revert t n. induction p as [|[a|a|a] p IH]; intros t n Hm Hc.
  - by apply elem_of_nil in Hc.
  - cbn [match_here] in Hm. destruct t as [|x t]; [done|].
    destruct (atom_matches a x) eqn:Hx; [|done].
    apply fmap_S_inv in Hm as (m & Hm & _).
    apply elem_of_cons in Hc as [[= <-]|Hc].
    + apply N.eqb_eq in Hx as ->. by left.
    + right. by apply (IH t m).
  - cbn [match_here] in Hm.
    apply star_inv in Hm as (w & t' & m & -> & _ & Hm & _).
    apply elem_of_cons in Hc as [[=]|Hc].
    apply elem_of_app. right. by apply (IH t' m).
  - cbn [match_here] in Hm. destruct t as [|x t]; [done|].
    destruct (atom_matches a x); [|done].
    apply fmap_S_inv in Hm as (m0 & Hm & _).
    apply star_inv in Hm as (w & t' & m & -> & _ & Hm & _).
    apply elem_of_cons in Hc as [[=]|Hc].
    right. apply elem_of_app. right. by apply (IH t' m).
Qed.

Lemma search_needs_literal p t c :
  One (Lit c) ∈ p → c ∉ t → search p t = false.
Proof.
  intros Hc. induction t as [|x t IH]; intros Ht.
  - cbn [search]. destruct (match_here p []) as [n|] eqn:Hm; [|done].
    destruct Ht. by apply (match_needs_literal p [] n).
  - apply not_elem_of_cons in Ht as [Hx Ht].
    apply search_cons_false. split; [|by apply IH].
    destruct (match_here p (x :: t)) as [n|] eqn:Hm; [|done].
    apply (match_needs_literal _ _ _ c) in Hm; [|done].
    apply elem_of_cons in Hm as [->|Hm]; done.
Qed.

(** A match is not shorter than the pattern asks for and does not reach past
    the end of the text. *)
Lemma match_length_bounds p t n :
  match_here p t = Some n → (min_length p ≤ n ≤ length t)%nat.
Proof.
  revert t n. induction p as [|[a|a|a] p IH]; intros t n Hm.
  - cbn [match_here] in Hm. injection Hm as <-. simpl. lia.
  - cbn [match_here] in Hm. destruct t as [|x t]; [done|].
    destruct (atom_matches a x); [|done].
    apply fmap_S_inv in Hm as (m & Hm & ->).
    apply IH in Hm. simpl. lia.
  - cbn [match_here] in Hm.
    apply star_inv in Hm as (w & t' & m & -> & _ & Hm & ->).
    apply IH in Hm. rewrite length_app. simpl. lia.
  - cbn [match_here] in Hm. destruct t as [|x t]; [done|].
    destruct (atom_matches a x); [|done].
    apply fmap_S_inv in Hm as (m0 & Hm & ->).
    apply star_inv in Hm as (w & t' & m & -> & _ & Hm & ->).
    apply IH in Hm. simpl. rewrite length_app. lia.
Qed.

Lemma sub_scan_skip_length p n t :
  (n ≤ length t)%nat → (length (sub_scan p n t) + n ≤ length t)%nat.
Proof.
  intros Hn. rewrite sub_scan_drop.
  pose proof (re_sub_length p (drop n t)) as Hlen. unfold re_sub in Hlen.
  rewrite length_drop in Hlen. lia.
Qed.

(** Where the scan finds a match, the text loses at least the characters a
    match has. *)
Lemma re_sub_drops_min p t :
  (0 < min_length p)%nat → search p t = true →
  (length (re_sub p t) + min_length p ≤ length t)%nat.
Proof.
  intros Hpos. unfold re_sub. induction t as [|x t IH].
  - cbn [search]. destruct (match_here p []) as [n|] eqn:Hm; [|done].
    apply match_length_bounds in Hm. simpl in Hm. lia.
  - change (search p (x :: t)) with
      (match match_here p (x :: t) with
       | Some _ => true
       | None => search p t
       end).
    cbn [sub_scan].
    destruct (match_here p (x :: t)) as [[|n]|] eqn:Hm.
    + apply match_length_bounds in Hm. lia.
    + intros _. apply match_length_bounds in Hm. simpl in Hm.
      pose proof (sub_scan_skip_length p n t). simpl. lia.
    + intros Ht. specialize (IH Ht). simpl. lia.
Qed.

Lemma pattern_newline :
  One (Lit LF) ∈ pattern1 ∧ One (Lit LF) ∈ pattern2.
Proof.
  split.
  - by apply (list_elem_of_lookup_2 _ 59).
  - by apply (list_elem_of_lookup_2 _ 41).
Qed.

End Needs.

(* ===================================================================== *)
(** ** Theorems: what the substitution pass leaves alone *)
(* ===================================================================== *)

(** X1. [fix_user_schools_references] prints its warning exactly when
    [user.userSchools[0]] occurs in the content and [userSchools:] does not;
    otherwise it prints nothing. *)
Theorem user_schools_warning_iff (content : text) (w : world) :
  let w' := (fix_user_schools_references content w).2 in
  (console w' = console w ++ [WarnUserSchools]
   ↔ occurs (str "user.userSchools[0]") content
     ∧ ¬ occurs (str "userSchools:") content)
  ∧ (console w' = console w
     ↔ ¬ (occurs (str "user.userSchools[0]") content
          ∧ ¬ occurs (str "userSchools:") content)).
Proof.
  rewrite fix_user_schools_references_run. cbn [snd log console].
  assert (str_in (str "user.userSchools[0]") content
          && negb (str_in (str "userSchools:") content) = true
          ↔ occurs (str "user.userSchools[0]") content
            ∧ ¬ occurs (str "userSchools:") content) as Hcond.
  { by rewrite andb_true_iff, negb_true_iff, str_in_spec, str_in_false_spec. }
  unfold user_schools_warning. destruct (_ && _).
  - apply proj1 in Hcond. specialize (Hcond eq_refl).
    split; split; try done. by intros ?%snoc_neq.
  - apply proj2 in Hcond. rewrite app_nil_r.
    split; split; try done; try (by intros ?%eq_sym%snoc_neq).
    + by intros ?%Hcond.
    + by intros _ ?%Hcond.
Qed.

(** X4. Both patterns end in a newline: a text without a newline character,
    such as a last line that is not terminated, comes back unchanged. *)
Theorem fix_needs_newline (content : text) :
  LF ∉ content → fix_user_where_clause content = content.
Proof.
  intros Hlf. destruct pattern_newline as [H1 H2].
  unfold fix_user_where_clause.
  rewrite (re_sub_no_match pattern1) by by apply (search_needs_literal _ _ LF).
  by apply re_sub_no_match, (search_needs_literal _ _ LF).
Qed.

Lemma fix_needs_newline_witness :
  fix_user_where_clause (str "where: {  " ++ line2) = str "where: {  " ++ line2.
Proof.
  apply (fix_needs_newline (str "where: {  " ++ line2)).
  apply (bool_decide_unpack _). vm_compute. reflexivity.
Defined.

(** X6. Every match of either pattern has at least 38 characters (the
    shorter pattern asks for that many), so a text the pass changes loses at
    least 38 characters. *)
Theorem fix_deletes_at_least_a_line (content : text) :
  fix_user_where_clause content ≠ content →
  (length (fix_user_where_clause content) + 38 ≤ length content)%nat.
Proof.
  unfold fix_user_where_clause. intros Hne.
  pose proof (re_sub_length pattern2 (re_sub pattern1 content)) as Hlen2.
  destruct (search pattern1 content) eqn:H1.
  - apply re_sub_drops_min in H1; [|vm_compute; lia].
    change (min_length pattern1) with 55%nat in H1. lia.
  - rewrite (re_sub_no_match _ _ H1) in *.
    destruct (search pattern2 content) eqn:H2.
    + apply re_sub_drops_min in H2; [|vm_compute; lia].
      by change (min_length pattern2) with 38%nat in H2.
    + destruct Hne. by apply re_sub_no_match.
Qed.

Lemma fix_deletes_at_least_a_line_witness :
  (length (fix_user_where_clause (str "a" ++ (LF :: line2) ++ [LF])) + 38
   ≤ length (str "a" ++ (LF :: line2) ++ [LF]))%nat.
Proof.
  apply (fix_deletes_at_least_a_line (str "a" ++ (LF :: line2) ++ [LF])).
  vm_compute. discriminate.
Defined.

(* ===================================================================== *)
(** ** Lines with other spacing *)
(* ===================================================================== *)

Section Spacing.
Implicit Types (p q : regex) (t : text).

Lemma search_cons p x t :
  search p (x :: t)
  = match match_here p (x :: t) with
    | Some _ => true
    | None => search p t
    end.
Proof. done. Qed.

(** [\s*\n] behind the marker takes trailing whitespace and blank lines up
    to the last newline before the next text. *)
Lemma match_line_end_run w6 post :
  forallb is_space w6 = true → no_leading_newline post = true →
  match_here [Star Space; One (Lit LF)] (w6 ++ LF :: post)
  = Some (length w6 + 1)%nat.
Proof.
  intros Hw6 Hpost.
  change (match_here [Star Space; One (Lit LF)] (w6 ++ LF :: post)) with
    (star Space (match_here [One (Lit LF)]) (w6 ++ LF :: post)).
  induction w6 as [|x w6 IH].
  - exact (match_line_end post Hpost).
  - simpl in Hw6. apply andb_true_iff in Hw6 as [Hx Hw6].
    cbn [app]. rewrite star_cons. cbn [atom_matches].
    by rewrite Hx, (IH Hw6).
Qed.

Lemma body1_matches_spaced w2 w3 w4 w5 w6 post :
  forallb is_space w2 = true → forallb is_space w3 = true →
  forallb is_space w4 = true → forallb is_space w5 = true →
  forallb is_space w6 = true → no_leading_newline post = true →
  match_here (tail pattern1) (spaced_line1 w2 w3 w4 w5 w6 ++ LF :: post)
  = Some (length (spaced_line1 w2 w3 w4 w5 w6 ++ [LF])).
Proof.
  intros H2 H3 H4 H5 H6 Hpost.
  change (tail pattern1) with
    (lits (str "schoolId:") ++
     Star Space :: lits (str "context.schoolId,") ++
     Star Space :: lits (str "//") ++
     Star Space :: lits (str "CRITICAL:") ++
     Star Space :: lits (str "Filter by school") ++
     [Star Space; One (Lit LF)]).
  unfold spaced_line1. rewrite <- !app_assoc.
  pose proof (match_line_end_run w6 post H6 Hpost) as E5.
  pose proof (match_star_lits (str "Filter by school") _ w5 _ _
                H5 eq_refl E5) as E4.
  pose proof (match_star_lits (str "CRITICAL:") _ w4 _ _
                H4 eq_refl E4) as E3.
  pose proof (match_star_lits (str "//") _ w3 _ _
                H3 eq_refl E3) as E2.
  pose proof (match_star_lits (str "context.schoolId,") _ w2 _ _
                H2 eq_refl E2) as E1.
  rewrite match_lits, E1. cbn [fmap option_fmap option_map]. f_equal.
  rewrite !length_app. simpl. lia.
Qed.

Lemma body2_matches_spaced w3 w4 w5 w6 post :
  forallb is_space w3 = true → forallb is_space w4 = true →
  forallb is_space w5 = true → forallb is_space w6 = true →
  no_leading_newline post = true →
  match_here (tail pattern2) (spaced_line2 w3 w4 w5 w6 ++ LF :: post)
  = Some (length (spaced_line2 w3 w4 w5 w6 ++ [LF])).
Proof.
  intros H3 H4 H5 H6 Hpost.
  change (tail pattern2) with
    (lits (str "schoolId,") ++
     Star Space :: lits (str "//") ++
     Star Space :: lits (str "CRITICAL:") ++
     Star Space :: lits (str "Filter by school") ++
     [Star Space; One (Lit LF)]).
  unfold spaced_line2. rewrite <- !app_assoc.
  pose proof (match_line_end_run w6 post H6 Hpost) as E5.
  pose proof (match_star_lits (str "Filter by school") _ w5 _ _
                H5 eq_refl E5) as E4.
  pose proof (match_star_lits (str "CRITICAL:") _ w4 _ _
                H4 eq_refl E4) as E3.
  pose proof (match_star_lits (str "//") _ w3 _ _
                H3 eq_refl E3) as E2.
  rewrite match_lits, E2. cbn [fmap option_fmap option_map]. f_equal.
  rewrite !length_app. simpl. lia.
Qed.

(** One match behind a text no match starts in: the scan keeps the text and
    drops the match. *)
Lemma re_sub_deletes_behind kw q pre ws body post :
  forallb (λ c, negb (is_space c)) kw = true →
  ws ≠ [] → forallb is_space ws = true →
  ends_nonspace pre = true → ¬ occurs kw pre →
  match_here (Plus Space :: lits kw ++ q) ((ws ++ body) ++ post)
  = Some (length (ws ++ body)) →
  re_sub (Plus Space :: lits kw ++ q) (pre ++ (ws ++ body) ++ post)
  = pre ++ re_sub (Plus Space :: lits kw ++ q) post.
Proof.
  intros Hkw Hne Hws Hpre Hocc Hm.
  rewrite re_sub_prefix.
  - f_equal. apply re_sub_match; [by destruct ws|done].
  - apply no_match_before; [done| |done..].
    rewrite <- app_assoc. by apply starts_space_app.
Qed.

(** The search passes over a word without whitespace. *)
Lemma search_past_word q tok t :
  forallb (λ c, negb (is_space c)) tok = true →
  search (Plus Space :: q) (tok ++ t) = search (Plus Space :: q) t.
Proof.
  induction tok as [|c tok IH]; [done|]. simpl forallb.
  intros [Hc Htok]%andb_true_iff. apply negb_true_iff in Hc.
  cbn [app]. rewrite search_cons. cbn [match_here atom_matches].
  rewrite Hc. auto.
Qed.

(** The search passes over whitespace that the rest of the pattern does not
    match behind. *)
Lemma search_space_run q w t :
  (∀ x u, is_space x = true → match_here q (x :: u) = None) →
  forallb is_space w = true → stops Space t = true →
  match_here q t = None →
  search (Plus Space :: q) (w ++ t) = search (Plus Space :: q) t.
Proof.
  intros Hq Hw Ht Hnone. induction w as [|x w IH]; [done|].
  simpl in Hw. apply andb_true_iff in Hw as [Hx Hw].
  cbn [app]. rewrite search_cons. cbn [match_here atom_matches].
  rewrite Hx, star_fails; [by apply IH|done..].
Qed.

Lemma occurs_behind_space kw x t :
  kw ≠ [] → forallb (λ c, negb (is_space c)) kw = true →
  is_space x = true → occurs kw (x :: t) → occurs kw t.
Proof.
  intros Hne Hkw Hx (before & after & Heq).
  destruct before as [|y before].
  - destruct kw as [|c kw]; [done|]. injection Heq as -> _.
    simpl in Hkw. by rewrite Hx in Hkw.
  - injection Heq as _ ->. by exists before, after.
Qed.

Lemma search_space_then_no_word kw q w t :
  kw ≠ [] → forallb (λ c, negb (is_space c)) kw = true →
  forallb is_space w = true → ¬ occurs kw t →
  search (Plus Space :: lits kw ++ q) (w ++ t) = false.
Proof.
  intros Hne Hkw Hw Ht. apply search_no_word.
  induction w as [|x w IH]; [done|].
  simpl in Hw. apply andb_true_iff in Hw as [Hx Hw].
  intros Hocc. apply (IH Hw). by apply (occurs_behind_space kw x).
Qed.

Lemma starts_space_end w6 post :
  forallb is_space w6 = true → starts_space (w6 ++ LF :: post) = true.
Proof. destruct w6; [done|]. simpl. by intros [? _]%andb_true_iff. Qed.

Lemma tail1_rejects_school u :
  starts_space u = true → match_here (tail pattern1) (str "school" ++ u) = None.
Proof.
  intros Hu.
  change (tail pattern1) with
    (lits (str "school") ++ One (Lit 73) :: drop 8 pattern1).
  rewrite match_lits. destruct u as [|x u]; [done|].
  cbn [match_here atom_matches].
  destruct (x =? 73) eqn:Hx; [|done].
  apply N.eqb_eq in Hx as ->. done.
Qed.

(** The first pattern has no match in a shorthand line, however spaced. *)
Lemma pattern1_skips_spaced_line2 ws w3 w4 w5 w6 post :
  forallb is_space ws = true →
  forallb is_space w3 = true → forallb is_space w4 = true →
  forallb is_space w5 = true → forallb is_space w6 = true →
  ¬ occurs keyword post →
  search pattern1 (ws ++ spaced_line2 w3 w4 w5 w6 ++ LF :: post) = false.
Proof.
  intros Hws H3 H4 H5 H6 Hpost.
  unfold spaced_line2.
  change (str "Filter by school") with
    (str "Filter" ++ [SP] ++ str "by" ++ [SP] ++ str "school").
  rewrite <- !app_assoc.
  change pattern1 with (Plus Space :: tail pattern1).
  pose proof tail1_rejects_space as Hback.
  rewrite (search_space_run _ ws); [|done..|reflexivity|reflexivity].
  rewrite search_past_word by reflexivity.
  rewrite (search_space_run _ w3); [|done..|reflexivity|reflexivity].
  rewrite search_past_word by reflexivity.
  rewrite (search_space_run _ w4); [|done..|reflexivity|reflexivity].
  rewrite search_past_word by reflexivity.
  rewrite (search_space_run _ w5); [|done..|reflexivity|reflexivity].
  rewrite search_past_word by reflexivity.
  rewrite (search_space_run _ [SP]); [|done..|reflexivity|reflexivity].
  rewrite search_past_word by reflexivity.
  rewrite (search_space_run _ [SP]); [|done..|reflexivity|].
  - rewrite search_past_word by reflexivity.
    change (Plus Space :: tail pattern1) with
      (Plus Space :: lits keyword ++ drop 9 pattern1).
    apply search_space_then_no_word; [done..|].
    intros Hocc. by apply Hpost, (occurs_behind_space keyword LF).
  - apply tail1_rejects_school. by apply (starts_space_end w6 post).
Qed.

End Spacing.

Section SpacedLines.

Lemma spaced_line1_matches ws w2 w3 w4 w5 w6 post :
  ws ≠ [] → forallb is_space ws = true →
  forallb is_space w2 = true → forallb is_space w3 = true →
  forallb is_space w4 = true → forallb is_space w5 = true →
  forallb is_space w6 = true → no_leading_newline post = true →
  match_here pattern1 ((ws ++ spaced_line1 w2 w3 w4 w5 w6 ++ [LF]) ++ post)
  = Some (length (ws ++ spaced_line1 w2 w3 w4 w5 w6 ++ [LF])).
Proof.
  intros Hne Hws H2 H3 H4 H5 H6 Hpost.
  replace ((ws ++ spaced_line1 w2 w3 w4 w5 w6 ++ [LF]) ++ post)
    with (ws ++ spaced_line1 w2 w3 w4 w5 w6 ++ LF :: post)
    by by rewrite <- !app_assoc.
  change pattern1 with (Plus Space :: tail pattern1).
  rewrite (match_plus_space _ ws _
             (length (spaced_line1 w2 w3 w4 w5 w6 ++ [LF]))); [|done..| |].
  - by rewrite (length_app ws).
  - reflexivity.
  - by apply body1_matches_spaced.
Qed.

Lemma spaced_line2_matches ws w3 w4 w5 w6 post :
  ws ≠ [] → forallb is_space ws = true →
  forallb is_space w3 = true → forallb is_space w4 = true →
  forallb is_space w5 = true → forallb is_space w6 = true →
  no_leading_newline post = true →
  match_here pattern2 ((ws ++ spaced_line2 w3 w4 w5 w6 ++ [LF]) ++ post)
  = Some (length (ws ++ spaced_line2 w3 w4 w5 w6 ++ [LF])).
Proof.
  intros Hne Hws H3 H4 H5 H6 Hpost.
  replace ((ws ++ spaced_line2 w3 w4 w5 w6 ++ [LF]) ++ post)
    with (ws ++ spaced_line2 w3 w4 w5 w6 ++ LF :: post)
    by by rewrite <- !app_assoc.
  change pattern2 with (Plus Space :: tail pattern2).
  rewrite (match_plus_space _ ws _
             (length (spaced_line2 w3 w4 w5 w6 ++ [LF]))); [|done..| |].
  - by rewrite (length_app ws).
  - reflexivity.
  - by apply body2_matches_spaced.
Qed.

End SpacedLines.

(* ===================================================================== *)
(** ** Theorems: spacing and position of the line *)
(* ===================================================================== *)

(** X2. The first pattern has [\s*] between the words of the line and before
    the newline, so the line is deleted with any whitespace there: none, one
    space, tabs, and trailing blanks or blank lines behind the marker. For a
    text [pre ++ ws ++ line ++ LF :: post], with [ws] the whitespace in front
    of the line (not empty), [post] not starting with blank lines and
    [schoolId] nowhere else, the pass returns [pre ++ post]. *)
Theorem fix_deletes_spaced_line1 (pre ws w2 w3 w4 w5 w6 post : text) :
  ws ≠ [] → forallb is_space ws = true →
  forallb is_space w2 = true → forallb is_space w3 = true →
  forallb is_space w4 = true → forallb is_space w5 = true →
  forallb is_space w6 = true →
  ends_nonspace pre = true → no_leading_newline post = true →
  ¬ occurs keyword (pre ++ post) →
  fix_user_where_clause
    (pre ++ ws ++ spaced_line1 w2 w3 w4 w5 w6 ++ LF :: post)
  = pre ++ post.
Proof.
  intros Hne Hws H2 H3 H4 H5 H6 Hpre Hpost Hkw.
  destruct (search_no_keyword _ Hkw) as [_ Hs2].
  destruct (not_occurs_app _ _ _ Hkw) as [Hkpre Hkpost].
  destruct (search_no_keyword _ Hkpost) as [Hp1 _].
  pose proof (re_sub_deletes_behind keyword (drop 9 pattern1) pre ws
                (spaced_line1 w2 w3 w4 w5 w6 ++ [LF]) post
                keyword_nonspace Hne Hws Hpre Hkpre) as Hdel.
  change (Plus Space :: lits keyword ++ drop 9 pattern1) with pattern1 in Hdel.
  unfold fix_user_where_clause.
  replace (pre ++ ws ++ spaced_line1 w2 w3 w4 w5 w6 ++ LF :: post)
    with (pre ++ (ws ++ spaced_line1 w2 w3 w4 w5 w6 ++ [LF]) ++ post)
    by by rewrite <- !app_assoc.
  rewrite Hdel by by apply spaced_line1_matches.
  rewrite (re_sub_no_match _ post Hp1). by apply re_sub_no_match.
Qed.

Lemma fix_deletes_spaced_line1_witness :
  fix_user_where_clause
    (str "  id," ++ [LF; 9]
     ++ spaced_line1 [] [9] [] [SP; SP] [SP; LF; LF] ++ LF :: str "},")
  = str "  id," ++ str "},".
Proof.
  refine (fix_deletes_spaced_line1 (str "  id,") [LF; 9]
            [] [9] [] [SP; SP] [SP; LF; LF] (str "},")
            _ _ _ _ _ _ _ _ _ _); try discriminate; try reflexivity.
  apply str_in_false_spec. vm_compute. reflexivity.
Defined.

(** X3. The same for the shorthand line and the second pattern: the first
    pattern finds nothing in such a line, the second deletes it with the
    whitespace in front of it, whatever the whitespace between its words and
    behind the marker. *)
Theorem fix_deletes_spaced_line2 (pre ws w3 w4 w5 w6 post : text) :
  ws ≠ [] → forallb is_space ws = true →
  forallb is_space w3 = true → forallb is_space w4 = true →
  forallb is_space w5 = true → forallb is_space w6 = true →
  ends_nonspace pre = true → no_leading_newline post = true →
  ¬ occurs keyword (pre ++ post) →
  fix_user_where_clause (pre ++ ws ++ spaced_line2 w3 w4 w5 w6 ++ LF :: post)
  = pre ++ post.
Proof.
  intros Hne Hws H3 H4 H5 H6 Hpre Hpost Hkw.
  destruct (not_occurs_app _ _ _ Hkw) as [Hkpre Hkpost].
  destruct (search_no_keyword _ Hkpost) as [_ Hp2].
  pose proof (re_sub_deletes_behind keyword (drop 9 pattern2) pre ws
                (spaced_line2 w3 w4 w5 w6 ++ [LF]) post
                keyword_nonspace Hne Hws Hpre Hkpre) as Hdel.
  change (Plus Space :: lits keyword ++ drop 9 pattern2) with pattern2 in Hdel.
  unfold fix_user_where_clause.
  rewrite (re_sub_no_match pattern1).
  - replace (pre ++ ws ++ spaced_line2 w3 w4 w5 w6 ++ LF :: post)
      with (pre ++ (ws ++ spaced_line2 w3 w4 w5 w6 ++ [LF]) ++ post)
      by by rewrite <- !app_assoc.
    rewrite Hdel by by apply spaced_line2_matches.
    by rewrite (re_sub_no_match _ post Hp2).
  - rewrite search_prefix; [by apply pattern1_skips_spaced_line2|].
    rewrite pattern1_shape.
    apply no_match_before;
      auto using keyword_nonspace, starts_space_app.
Qed.

Lemma fix_deletes_spaced_line2_witness :
  fix_user_where_clause
    (str "  id," ++ [LF; 9]
     ++ spaced_line2 [] [9; SP] [] [SP; LF] ++ LF :: str "},")
  = str "  id," ++ str "},".
Proof.
  refine (fix_deletes_spaced_line2 (str "  id,") [LF; 9]
            [] [9; SP] [] [SP; LF] (str "},")
            _ _ _ _ _ _ _ _ _); try discriminate; try reflexivity.
  apply str_in_false_spec. vm_compute. reflexivity.
Defined.

(** X5. Both patterns ask for whitespace in front of [schoolId]: a line of
    either form that opens the text, with nothing in front of it, is not
    deleted. *)
Theorem fix_keeps_line_that_opens_text (post : text) :
  ¬ occurs keyword post →
  fix_user_where_clause (line1 ++ LF :: post) = line1 ++ LF :: post
  ∧ fix_user_where_clause (line2 ++ LF :: post) = line2 ++ LF :: post.
Proof.
  intros Hpost.
  assert (∀ q, search (Plus Space :: lits keyword ++ q) (LF :: post) = false)
    as Hend.
  { intros q.
    by apply (search_space_then_no_word keyword q [LF] post). }
  split; apply fix_unchanged_iff; split.
  - unfold line1. cbn [app].
    repeat (apply search_cons_false; split; [reflexivity|]).
    rewrite pattern1_shape. apply Hend.
  - unfold line1. cbn [app].
    repeat (apply search_cons_false; split; [reflexivity|]).
    rewrite pattern2_shape. apply Hend.
  - by apply (pattern1_skips_line2 []).
  - unfold line2. cbn [app].
    repeat (apply search_cons_false; split; [reflexivity|]).
    rewrite pattern2_shape. apply Hend.
Qed.

Lemma fix_keeps_line_that_opens_text_witness :
  fix_user_where_clause (line1 ++ LF :: str "  id," ++ [LF])
  = line1 ++ LF :: str "  id," ++ [LF].
Proof.
  refine (proj1 (fix_keeps_line_that_opens_text (str "  id," ++ [LF]) _)).
  apply str_in_false_spec. vm_compute. reflexivity.
Defined.

(** X10. A file whose text does not mention [schoolId] is left alone whether
    it can be written or not: [fix_file] prints "No changes needed" after the
    warnings, returns [False] and does not touch the file system. *)
Theorem fix_file_leaves_file_without_keyword
    (filepath : string) (w : world) (content : text) (writable : bool) :
  fs w !! filepath = Some (Regular content writable) →
  ¬ occurs keyword content →
  fix_file filepath w
  = (Ok false, log ([Fixing filepath] ++ warnings content ++ [NoChanges]) w).
Proof.
  intros Hfs Hkw. rewrite fix_file_run. unfold fix_file_outcome.
  rewrite Hfs. cbn zeta. rewrite (fix_no_keyword _ Hkw).
  by rewrite bool_decide_eq_false_2 by (by intros []).
Qed.

Lemma fix_file_leaves_file_without_keyword_witness :
  let filepath := "src/app/api/teacher/events/route.ts"%string in
  let content := str "const t = user.teacher" ++ [LF] in
  let w := World {[ filepath := Regular content false ]} [] in
  fix_file filepath w
  = (Ok false, log [Fixing filepath; WarnTeacher; NoChanges] w).
Proof.
  intros filepath content w.
  refine (fix_file_leaves_file_without_keyword filepath w content false _ _).
  - vm_compute. reflexivity.
  - apply str_in_false_spec. vm_compute. reflexivity.
Defined.

(* ===================================================================== *)
(** ** The files and the console after a run *)
(* ===================================================================== *)

Section AfterRun.

(** One call leaves in its file what [fix_node] says. *)
Lemma fix_file_node filepath w fixed w' :
  fix_file filepath w = (Ok fixed, w') →
  fs w' !! filepath = fix_node <$> fs w !! filepath.
Proof.
  rewrite fix_file_run. unfold fix_file_outcome.
  destruct (fs w !! filepath) as [[original writable|msg]|] eqn:Hfs;
    [case_bool_decide as Hne; destruct writable|..];
    intros [= <- <-]; cbn [fs log]; rewrite ?Hfs; try done.
  - by rewrite lookup_insert_eq.
  - simpl. by rewrite Hne.
Qed.

Lemma calls_file_system paths w results w' :
  NoDup paths → calls paths w results w' →
  ∀ path,
    fs w' !! path
    = if bool_decide (path ∈ paths) then fix_node <$> fs w !! path
      else fs w !! path.
Proof.
  intros Hnodup Hcalls.
  induction Hcalls as [w|filepath paths w fixed w1 results w' Hcall _ IH];
    intros path.
  - done.
  - apply NoDup_cons in Hnodup as [Hfresh Hnodup].
    destruct (fix_file_footprint _ _ _ _ Hcall) as [Hothers _].
    rewrite (IH Hnodup path).
    destruct (decide (path = filepath)) as [->|Hne].
    + rewrite (bool_decide_eq_false_2 (filepath ∈ paths)) by done.
      rewrite (bool_decide_eq_true_2 (filepath ∈ filepath :: paths))
        by by left.
      by apply fix_file_node in Hcall.
    + rewrite (Hothers path Hne).
      destruct (decide (path ∈ paths)) as [Hin|Hout].
      * rewrite (bool_decide_eq_true_2 (path ∈ paths)) by done.
        by rewrite (bool_decide_eq_true_2 (path ∈ filepath :: paths))
          by by right.
      * rewrite (bool_decide_eq_false_2 (path ∈ paths)) by done.
        rewrite (bool_decide_eq_false_2 (path ∈ filepath :: paths)); [done|].
        intros Hin. apply elem_of_cons in Hin. by destruct Hin.
Qed.

Lemma main_calls w :
  ∃ results w1,
    calls files_to_fix (log [Starting] w) results w1
    ∧ (main w).2 = log [FixedCount (fixed_files results); RunTsc] w1.
Proof.
  destruct (main_run w) as (results & w1 & Hcalls & Hmain).
  exists results, w1. by rewrite Hmain.
Qed.

Lemma main_lookup w path :
  fs (main w).2 !! path
  = if bool_decide (path ∈ files_to_fix) then fix_node <$> fs w !! path
    else fs w !! path.
Proof.
  destruct (main_calls w) as (results & w1 & Hcalls & ->).
  apply (calls_file_system _ _ _ _ files_to_fix_NoDup Hcalls).
Qed.

Lemma reported_warnings content : omap reported_fixed (warnings content) = [].
Proof.
  unfold warnings, teacher_warning, user_schools_warning.
  by repeat destruct (_ && _).
Qed.

(** One call prints "Fixed" for its file when it returns [True] and for no
    file otherwise. *)
Lemma fix_file_reports filepath w fixed w' :
  fix_file filepath w = (Ok fixed, w') →
  ∃ printed,
    console w' = console w ++ printed
    ∧ omap reported_fixed printed = if fixed then [filepath] else [].
Proof.
  rewrite fix_file_run. unfold fix_file_outcome.
  destruct (fs w !! filepath) as [[original writable|msg]|];
    [case_bool_decide; [destruct writable|]|..];
    intros [= <- <-]; cbn [log console]; eexists; (split; [done|]);
    try done;
    change (Fixing filepath :: ?l) with ([Fixing filepath] ++ l);
    by rewrite !omap_app, reported_warnings.
Qed.

Lemma calls_reports paths w results w' :
  calls paths w results w' →
  ∃ printed,
    console w' = console w ++ printed
    ∧ omap reported_fixed printed `sublist_of` paths
    ∧ length (omap reported_fixed printed) = fixed_files results.
Proof.
  induction 1 as [w|filepath paths w fixed w1 results w' Hcall _ IH].
  - exists []. by rewrite app_nil_r.
  - destruct IH as (printed' & Hconsole' & Hsub & Hlen).
    apply fix_file_reports in Hcall as (printed & Hconsole & Hfixed).
    exists (printed ++ printed').
    rewrite Hconsole', Hconsole, <- app_assoc. split; [done|].
    rewrite omap_app, Hfixed, length_app, Hlen.
    unfold fixed_files. rewrite filter_cons.
    destruct fixed; simpl.
    + split; [by apply sublist_skip|done].
    + split; [by apply sublist_cons|done].
Qed.

End AfterRun.

(* ===================================================================== *)
(** ** Theorems: the files and the console after a run *)
(* ===================================================================== *)

(** X7. What [main] leaves in the file system, path by path: a file of the
    list that is regular and can be written holds the text
    [fix_user_where_clause] makes of its former text; every other path, in
    the list or not, holds what it held before. *)
Theorem main_file_system (w : world) (path : string) :
  fs (main w).2 !! path
  = if bool_decide (path ∈ files_to_fix) then fix_node <$> fs w !! path
    else fs w !! path.
Proof. apply main_lookup. Qed.

(** X8. [main] creates no file, removes none and lets none grow: a path that
    did not exist does not exist afterwards, a path that could not be read is
    as it was, and a regular file is still a regular file with the same
    permission, whose text is its former text with characters deleted. *)
Theorem main_only_deletes_text (w : world) (path : string) :
  match fs w !! path with
  | None => fs (main w).2 !! path = None
  | Some (Unreadable msg) => fs (main w).2 !! path = Some (Unreadable msg)
  | Some (Regular content writable) =>
      ∃ content',
        fs (main w).2 !! path = Some (Regular content' writable)
        ∧ content' `sublist_of` content
  end.
Proof.
  rewrite main_lookup.
  destruct (fs w !! path) as [[content writable|msg]|];
    case_bool_decide; simpl; try done; try by eexists.
  destruct writable; eexists; (split; [done|]); [|done].
  unfold fix_user_where_clause, re_sub. etrans; apply sub_scan_sublist.
Qed.

(** X9. The console after [main]: the opening line, the lines of the calls,
    the summary and the reminder, behind what was there before. The count of
    the summary is the number of "Fixed" lines among the lines of the calls;
    these name files of the list, each at most once and in the order of the
    list, so the count is at most twelve. *)
Theorem main_summary_counts_fixed_lines (w : world) :
  ∃ printed fixed_count,
    console (main w).2
    = console w ++ [Starting] ++ printed ++ [FixedCount fixed_count; RunTsc]
    ∧ fixed_count = length (omap reported_fixed printed)
    ∧ omap reported_fixed printed `sublist_of` files_to_fix
    ∧ (fixed_count ≤ 12)%nat.
Proof.
  destruct (main_calls w) as (results & w1 & Hcalls & ->).
  apply calls_reports in Hcalls as (printed & Hconsole & Hsub & Hlen).
  exists printed, (fixed_files results). cbn [log console] in *.
  rewrite Hconsole, <- !app_assoc. repeat split; [done..|].
  rewrite <- Hlen. by apply sublist_length in Hsub.
Qed.

(* ===================================================================== *)
(** ** Texts whose only matches are whole lines *)
(* ===================================================================== *)

Section OnlyMatches.
Implicit Types (p : regex) (t : text).








End OnlyMatches.

(* ===================================================================== *)
(** ** Theorems: the lines that are deleted *)
(* ===================================================================== *)




(** The scan begins a match at the first whitespace in front of the line,
    which is the newline that ends the line before: the two lines around the
    deleted one come out as one. *)
Lemma scan_takes_newline_before_line :
  fix_user_where_clause
    (str "a" ++ [LF] ++ str "  " ++ line1 ++ LF :: str "b" ++ [LF])
  = str "ab" ++ [LF].
Proof. vm_compute. reflexivity. Qed.



(* ===================================================================== *)
(** ** Theorems: a second run *)
(* ===================================================================== *)

Section SecondRun.



End SecondRun.



(* ===================================================================== *)
(** ** Theorems: errors and standard output *)
(* ===================================================================== *)

Section OnUtf8.





End OnUtf8.



